(** * The memory store of [memory_handler.py]

    A shallow embedding of [.agent/skills/claude-mem/scripts/memory_handler.py]:
    a command-line note store over one SQLite table,

      CREATE TABLE IF NOT EXISTS memories (
          id INTEGER PRIMARY KEY AUTOINCREMENT,
          tags TEXT,
          content TEXT NOT NULL,
          timestamp DATETIME DEFAULT CURRENT_TIMESTAMP)

    The development has three layers.  [Text] holds what the script asks of
    Python strings (truthiness, [str.lower]).  [Sqlite] gives the meaning of
    the five SQL statements the script executes, on a table kept as the list
    of its rows in rowid order.  [MemoryHandler] is the script itself,
    function by function, in a small monad that threads the database, the
    lines printed so far and the exception that ended the call, if any.

    Conventions.  A character is a Rocq [ascii], read as the code point of
    that number; text is a [string] of such characters without the NUL
    character (which a command-line argument cannot carry).  SQL NULL and
    Python [None] are [None : option string].  Time is the reading of the
    clock in whole seconds, the resolution of CURRENT_TIMESTAMP.  Standard
    output takes every character it is sent (a UTF-8 terminal), so [print]
    does not raise. *)

From Stdlib Require Import ZArith List String Ascii Bool Lia Sorted Permutation.
Import ListNotations.

Local Open Scope string_scope.
Local Open Scope Z_scope.

(* ===================================================================== *)
(** ** Python strings *)
(* ===================================================================== *)

Module Text.

(** [bool(s)] for an optional argparse string: [None] and [''] are falsy. *)
Definition truthy (s : option string) : bool :=
  match s with
  | Some (String _ _) => true
  | _ => false
  end.

(** [a or b] where [a] is an optional string and [b] a string. *)
Definition or_else (a : option string) (b : string) : string :=
  match a with
  | Some (String c s) => String c s
  | _ => b
  end.

(** [bool(n)] for an optional argparse integer: [None] and [0] are falsy. *)
Definition truthy_int (n : option Z) : bool :=
  match n with
  | Some k => negb (k =? 0)
  | None => false
  end.

(** [str.lower] on one character: the letters A..Z and the accented
    capitals U+00C0..U+00DE (the multiplication sign U+00D7 apart) move
    32 places up; every other character below U+0100 is its own lowercase. *)
Definition lower_char (c : ascii) : ascii :=
  let n := N_of_ascii c in
  if ((65 <=? n) && (n <=? 90))%N then ascii_of_N (n + 32)
  else if ((192 <=? n) && (n <=? 222) && negb (n =? 215))%N then ascii_of_N (n + 32)
  else c.

Fixpoint lower (s : string) : string :=
  match s with
  | EmptyString => EmptyString
  | String c s' => String (lower_char c) (lower s')
  end.

(** The spec's "substring": [q] occurs in [s] character for character. *)
Definition occurs_in (q s : string) : Prop :=
  exists a b, s = a ++ q ++ b.

(** The same as a test: try every position of [s]. *)
Fixpoint occurs_inb (q s : string) : bool :=
  prefix q s ||
  match s with
  | EmptyString => false
  | String _ s' => occurs_inb q s'
  end.

End Text.

(* ===================================================================== *)
(** ** The SQL the script executes *)
(* ===================================================================== *)

Module Sqlite.

(** A TEXT value or NULL. *)
Definition sqltext := option string.

(** One row of [memories]. *)
Record Memory := mkMemory {
  id : Z;
  tags : sqltext;
  content : sqltext;
  timestamp : Z
}.

(** The table: its rows in rowid order (the order of a full scan), and the
    [seq] that [sqlite_sequence] keeps for an AUTOINCREMENT table, the
    largest rowid ever handed out. *)
Record Table := mkTable {
  rows : list Memory;
  seq : Z
}.

(** The database file: the table may not have been created yet. *)
Definition Db := option Table.

(** The largest rowid, 2^63 - 1. *)
Definition MAX_ROWID : Z := 9223372036854775807.

(** *** LIKE *)

(** SQLite folds case for the 26 ASCII letters only. *)
Definition sqlite3Tolower (c : ascii) : ascii :=
  let n := N_of_ascii c in
  if ((65 <=? n) && (n <=? 90))%N then ascii_of_N (n + 32) else c.

(** [patternCompare] with the LIKE settings and no ESCAPE clause: [%]
    stands for any run of characters, [_] for any one character, and any
    other character for itself up to ASCII case. *)
Fixpoint patternCompare (zPattern zString : string) : bool :=
  match zPattern with
  | EmptyString =>
      match zString with
      | EmptyString => true
      | String _ _ => false
      end
  | String c p =>
      if (c =? "%")%char then
        (fix skip (s : string) : bool :=
           patternCompare p s ||
           match s with
           | EmptyString => false
           | String _ s' => skip s'
           end) zString
      else
        match zString with
        | EmptyString => false
        | String d s' =>
            ((c =? "_")%char || (sqlite3Tolower c =? sqlite3Tolower d)%char)
            && patternCompare p s'
        end
  end.

(** The string with its ASCII letters in lower case. *)
Fixpoint fold_case (s : string) : string :=
  match s with
  | EmptyString => EmptyString
  | String c s' => String (sqlite3Tolower c) (fold_case s')
  end.


(** No character of the string is NUL. *)
Fixpoint nul_free (s : string) : bool :=
  match s with
  | EmptyString => true
  | String c s' => negb (c =? "000")%char && nul_free s'
  end.

(** The bytes a character takes in UTF-8, the encoding in which text is
    bound and stored: one below U+0080, two from there to U+00FF. *)
Definition utf8_bytes (c : ascii) : Z :=
  if (N_of_ascii c <? 128)%N then 1 else 2.

Fixpoint utf8_length (s : string) : Z :=
  match s with
  | EmptyString => 0
  | String c s' => utf8_bytes c + utf8_length s'
  end.

(** SQLITE_MAX_LIKE_PATTERN_LENGTH, in bytes. *)
Definition SQLITE_MAX_LIKE_PATTERN_LENGTH : Z := 50000.

Definition too_complex (pattern : string) : bool :=
  SQLITE_MAX_LIKE_PATTERN_LENGTH <? utf8_length pattern.

(** The error a SELECT of the script can end with. *)
Inductive SelectError := LikePatternTooComplex.

(** [x LIKE pattern]: an error when the pattern is longer than the limit,
    whatever [x] is; otherwise NULL when [x] is NULL, and the outcome of
    the match when it is text. *)
Definition like (x : sqltext) (pattern : string) : SelectError + option bool :=
  if too_complex pattern then inl LikePatternTooComplex
  else
    inr match x with
        | None => None
        | Some s => Some (patternCompare pattern s)
        end.

(** Three-valued OR. *)
Definition or3 (a b : option bool) : option bool :=
  match a, b with
  | Some true, _ | _, Some true => Some true
  | Some false, Some false => Some false
  | _, _ => None
  end.

(** A WHERE clause keeps a row when its condition is true (not false, not
    NULL). *)
Definition is_true (a : option bool) : bool :=
  match a with
  | Some true => true
  | _ => false
  end.

(** *** CREATE TABLE IF NOT EXISTS memories (...) *)
Definition create_table_if_not_exists (db : Db) : Db :=
  match db with
  | Some t => Some t
  | None => Some (mkTable [] 0)
  end.

(** *** INSERT INTO memories (tags, content) VALUES (?, ?) *)

Inductive InsertError := NotNullConstraint | DatabaseFull.

Definition max_rowid (l : list Memory) : Z :=
  fold_right (fun r m => Z.max (id r) m) 0 l.

(** AUTOINCREMENT: one more than the largest rowid the table holds or has
    ever held. *)
Definition last_rowid (t : Table) : Z := Z.max (seq t) (max_rowid (rows t)).

(** The rowid is allocated first, the NOT NULL constraint checked next. *)
Definition insert (tags_ content_ : sqltext) (now : Z) (t : Table)
  : InsertError + Table :=
  if MAX_ROWID <=? last_rowid t then inl DatabaseFull
  else
    match content_ with
    | None => inl NotNullConstraint
    | Some _ =>
        let rowid := last_rowid t + 1 in
        inr (mkTable (rows t ++ [mkMemory rowid tags_ content_ now]) rowid)
    end.

(** *** SELECT id, tags, content FROM memories
        WHERE tags LIKE ? OR content LIKE ?
        ORDER BY timestamp DESC LIMIT 5 *)

(** [tags LIKE p1 OR content LIKE p2] on one row: the right operand is
    evaluated only when the left one is not true, and an error in either
    evaluation is the outcome. *)
Definition where_like (p1 p2 : string) (r : Memory) : SelectError + bool :=
  match like (tags r) p1 with
  | inl e => inl e
  | inr (Some true) => inr true
  | inr a =>
      match like (content r) p2 with
      | inl e => inl e
      | inr b => inr (is_true (or3 a b))
      end
  end.

(** The WHERE clause is evaluated without error and is true. *)
Definition where_true (p1 p2 : string) (r : Memory) : bool :=
  match where_like p1 p2 r with
  | inr b => b
  | inl _ => false
  end.

(** The scan of the table: the rows in rowid order, each kept when the
    WHERE clause is true for it; the first error ends the statement. *)
Fixpoint where_rows (p1 p2 : string) (l : list Memory)
  : SelectError + list Memory :=
  match l with
  | [] => inr []
  | r :: l' =>
      match where_like p1 p2 r with
      | inl e => inl e
      | inr b =>
          match where_rows p1 p2 l' with
          | inl e => inl e
          | inr kept => inr (if b then r :: kept else kept)
          end
      end
  end.

(** ORDER BY timestamp DESC: rows enter the sorter in scan order and a row
    goes behind the rows that are at least as recent, so rows of one
    second keep their rowid order. *)
Fixpoint sorter_insert (r : Memory) (l : list Memory) : list Memory :=
  match l with
  | [] => [r]
  | x :: l' =>
      if timestamp x <? timestamp r then r :: x :: l'
      else x :: sorter_insert r l'
  end.

Definition order_by_timestamp_desc (l : list Memory) : list Memory :=
  fold_left (fun acc r => sorter_insert r acc) l [].

(** ORDER BY timestamp DESC LIMIT 5 *)
Definition newest_five (l : list Memory) : list Memory :=
  firstn 5 (order_by_timestamp_desc l).

Definition select_rows (p1 p2 : string) (t : Table) : SelectError + list Memory :=
  match where_rows p1 p2 (rows t) with
  | inl e => inl e
  | inr kept => inr (newest_five kept)
  end.

Definition columns (r : Memory) : Z * sqltext * sqltext :=
  (id r, tags r, content r).

Definition select (p1 p2 : string) (t : Table)
  : SelectError + list (Z * sqltext * sqltext) :=
  match select_rows p1 p2 t with
  | inl e => inl e
  | inr found => inr (map columns found)
  end.

(** *** DELETE FROM memories WHERE id = ? *)
Definition delete_where_id (mem_id : Z) (t : Table) : Table :=
  mkTable (filter (fun r => negb (id r =? mem_id)) (rows t)) (seq t).

(** *** DELETE FROM memories *)
Definition delete_all (t : Table) : Table := mkTable [] (seq t).

End Sqlite.

(* ===================================================================== *)
(** ** The script *)
(* ===================================================================== *)

Module MemoryHandler.
Import Sqlite.

(** The exceptions a call can end with. *)
Inductive Exception :=
| NoSuchTable        (* sqlite3.OperationalError: no such table: memories *)
| DatabaseIsFull     (* sqlite3.OperationalError: database or disk is full *)
| PatternTooComplex  (* sqlite3.OperationalError: LIKE or GLOB pattern too complex *)
| IntegrityError     (* NOT NULL constraint failed: memories.content *)
| OverflowError      (* Python int too large to convert to SQLite INTEGER *)
| AttributeError     (* 'NoneType' object has no attribute 'upper' *)
| EOFError.          (* input() at end of file *)

(** The lines the script prints, by the [print] or [input] call that
    writes them; the fields are the values formatted into the line. *)
Inductive Line :=
| Saved (tags : sqltext)                 (* Memory saved under tags: {tags} *)
| Header (query : string)                (* --- Relevant Memories for '{query}' --- *)
| Row (mem_id : Z) (tags : string) (content : sqltext)
                                         (* ID: {mem_id} | [{tags.upper()}]: {content} *)
| NoResults (query : string)             (* No relevant knowledge found for '{query}'. *)
| Deleted (mem_id : Z)                   (* Memory ID {mem_id} deleted. *)
| Prompt                                 (* Are you sure you want to wipe ALL memories? (y/n): *)
| Wiped.                                 (* All memories wiped. *)

(** *** The monad of a call *)

(** What a call leaves behind: the database, the lines it printed, and the
    value it returned or the exception it raised. *)
Record Run (A : Type) := mkRun {
  db_after : Db;
  printed : list Line;
  returned : Exception + A
}.
Arguments mkRun {A} _ _ _.
Arguments db_after {A} _.
Arguments printed {A} _.
Arguments returned {A} _.

Definition Py (A : Type) : Type := Db -> Run A.

Definition ret {A} (a : A) : Py A := fun db => mkRun db [] (inr a).

Definition raise {A} (e : Exception) : Py A := fun db => mkRun db [] (inl e).

Definition bind {A B} (m : Py A) (k : A -> Py B) : Py B :=
  fun db =>
    let r := m db in
    match returned r with
    | inl e => mkRun (db_after r) (printed r) (inl e)
    | inr a =>
        let r' := k a (db_after r) in
        mkRun (db_after r') (printed r ++ printed r') (returned r')
    end.

Notation "x <- m ;; k" := (bind m (fun x => k))
  (at level 61, m at next level, right associativity).
Notation "m ;; k" := (bind m (fun _ => k))
  (at level 61, right associativity).

Definition print (l : Line) : Py unit := fun db => mkRun db [l] (inr tt).

(** [for x in xs: body(x)] *)
Fixpoint for_each {A} (xs : list A) (body : A -> Py unit) : Py unit :=
  match xs with
  | [] => ret tt
  | x :: xs' => body x ;; for_each xs' body
  end.

(** [with sqlite3.connect(DB_PATH) as conn: conn.execute(stmt)] on the
    table: the statement's change is committed when it succeeds and the
    table is as before when it raises. *)
Definition execute {A} (stmt : Table -> Exception + Table * A) : Py A :=
  fun db =>
    match db with
    | None => mkRun db [] (inl NoSuchTable)
    | Some t =>
        match stmt t with
        | inl e => mkRun db [] (inl e)
        | inr (t', a) => mkRun (Some t') [] (inr a)
        end
    end.

(** [input(prompt)]: writes the prompt and reads a line of standard input,
    [None] when the input is at its end. *)
Definition input (stdin : option string) : Py string :=
  print Prompt ;;
  match stdin with
  | Some reply => ret reply
  | None => raise EOFError
  end.

(** *** The functions of the script *)

Definition init_db : Py unit :=
  fun db => mkRun (create_table_if_not_exists db) [] (inr tt).

(** [now] is CURRENT_TIMESTAMP at the time of the call. *)
Definition save_memory (now : Z) (text tags : sqltext) : Py unit :=
  execute (fun t =>
    match insert tags text now t with
    | inl NotNullConstraint => inl IntegrityError
    | inl DatabaseFull => inl DatabaseIsFull
    | inr t' => inr (t', tt)
    end) ;;
  print (Saved tags).

(** [f'%{query}%'] *)
Definition pattern (query : string) : string := "%" ++ query ++ "%".

(** [conn.execute("SELECT ...", (f'%{query}%', f'%{query}%'))] and
    [cursor.fetchall()]: the rows, or the exception the statement raises. *)
Definition fetchall (query : string) (t : Table)
  : Exception + list (Z * sqltext * sqltext) :=
  match select (pattern query) (pattern query) t with
  | inl LikePatternTooComplex => inl PatternTooComplex
  | inr fetched => inr fetched
  end.

(** The rows [search_memories] has in [results]; none when the SELECT
    raises and nothing is fetched. *)
Definition results (query : string) (t : Table) : list (Z * sqltext * sqltext) :=
  match fetchall query t with
  | inr fetched => fetched
  | inl _ => []
  end.

Definition print_row (row : Z * sqltext * sqltext) : Py unit :=
  let '(mem_id, tags, content) := row in
  match tags with
  | Some tags => print (Row mem_id tags content)
  | None => raise AttributeError
  end.

Definition search_memories (query : string) : Py unit :=
  results <- execute (fun t =>
    match fetchall query t with
    | inl e => inl e
    | inr fetched => inr (t, fetched)
    end) ;;
  match results with
  | _ :: _ => print (Header query) ;; for_each results print_row
  | [] => print (NoResults query)
  end.

(** An integer parameter is bound as a signed 64-bit value. *)
Definition fits_int64 (n : Z) : bool :=
  (- MAX_ROWID - 1 <=? n) && (n <=? MAX_ROWID).

Definition delete_memory (mem_id : Z) : Py unit :=
  execute (fun t =>
    if fits_int64 mem_id then inr (delete_where_id mem_id t, tt)
    else inl OverflowError) ;;
  print (Deleted mem_id).

Definition wipe_all (stdin : option string) : Py unit :=
  confirm <- input stdin ;;
  if (Text.lower confirm =? "y")%string then
    execute (fun t => inr (delete_all t, tt)) ;;
    print Wiped
  else ret tt.

(** [args = parser.parse_args()] *)
Record Args := mkArgs {
  save : option string;
  tags_arg : option string;
  search : option string;
  delete : option Z;
  wipe : bool
}.

(** The [__main__] block; [now] is the clock and [stdin] the line waiting
    on standard input. *)
Definition main (args : Args) (now : Z) (stdin : option string) : Py unit :=
  init_db ;;
  if Text.truthy (save args) then
    save_memory now (save args) (Some (Text.or_else (tags_arg args) "general"))
  else if Text.truthy (search args) then
    match search args with
    | Some query => search_memories query
    | None => ret tt
    end
  else if Text.truthy_int (delete args) then
    match delete args with
    | Some mem_id => delete_memory mem_id
    | None => ret tt
    end
  else if wipe args then
    wipe_all stdin
  else ret tt.

(** *** Runs of the store, for the invariants *)

Inductive Op :=
| Init
| Save (now : Z) (text tags : sqltext)
| Search (query : string)
| Delete (mem_id : Z)
| Wipe (stdin : option string)
| Main (args : Args) (now : Z) (stdin : option string).

Definition call (op : Op) : Py unit :=
  match op with
  | Init => init_db
  | Save now text tags => save_memory now text tags
  | Search query => search_memories query
  | Delete mem_id => delete_memory mem_id
  | Wipe stdin => wipe_all stdin
  | Main args now stdin => main args now stdin
  end.

Definition step (db : Db) (op : Op) : Db := db_after (call op db).

Definition run (ops : list Op) (db : Db) : Db := fold_left step ops db.

End MemoryHandler.

(* ===================================================================== *)
(** ** The vocabulary of the properties *)
(* ===================================================================== *)

Module Spec.
Import Sqlite MemoryHandler.

(** The table a database holds once [init_db] has run. *)
Definition table_of (db : Db) : Table :=
  match db with
  | Some t => t
  | None => mkTable [] 0
  end.

Definition rows_of (db : Db) : list Memory := rows (table_of db).
Definition seq_of (db : Db) : Z := seq (table_of db).

(** The specification's reading of a search: the query occurs in the
    field character for character. *)
Definition field_contains (query : string) (field : sqltext) : Prop :=
  exists s, field = Some s /\ Text.occurs_in query s.

Definition contains_query (query : string) (r : Memory) : Prop :=
  field_contains query (tags r) \/ field_contains query (content r).



(** The WHERE clause of [search_memories] for a query: evaluated without
    error and true for the row. *)
Definition like_query (query : string) (r : Memory) : bool :=
  where_true (pattern query) (pattern query) r.

(** The rows of the table behind what a search fetches: the five most
    recent of those the WHERE clause is true for. *)
Definition found (query : string) (t : Table) : list Memory :=
  newest_five (filter (like_query query) (rows t)).

(** Text without the NUL character, field by field. *)
Definition field_nul_free (x : sqltext) : bool :=
  match x with
  | Some s => nul_free s
  | None => true
  end.

Definition row_nul_free (r : Memory) : bool :=
  field_nul_free (tags r) && field_nul_free (content r).

Definition table_nul_free (t : Table) : bool := forallb row_nul_free (rows t).

(** A query of 49999 letters: its pattern has 50001 bytes. *)
Definition long_query : string := N.iter 49999 (String "a") EmptyString.

(** Most recent first. *)
Definition newest_first (a b : Memory) : Prop := timestamp b <= timestamp a.


(** The invariants of the store: rows in strictly increasing rowid order
    (so no two share an id), every id positive and at most the recorded
    [seq], no NULL content, and [seq] a rowid. *)
Definition table_inv (t : Table) : Prop :=
  StronglySorted Z.lt (map id (rows t)) /\
  Forall (fun r => 1 <= id r <= seq t /\ content r <> None) (rows t) /\
  0 <= seq t <= MAX_ROWID.

Definition Inv (db : Db) : Prop :=
  match db with
  | Some t => table_inv t
  | None => True
  end.

(** [db'] comes after [db]: the counter has not gone back, and every row
    is a row of [db] as it was or carries an id above every id [db] had
    handed out. *)
Definition extends (db db' : Db) : Prop :=
  seq_of db <= seq_of db' /\
  forall r, In r (rows_of db') -> In r (rows_of db) \/ seq_of db < id r.

(** The arguments of some invocations. *)
Definition save_args (text : string) : Args := mkArgs (Some text) None None None false.
Definition save_tagged (text tags : string) : Args :=
  mkArgs (Some text) (Some tags) None None false.
Definition delete_args (mem_id : Z) : Args := mkArgs None None None (Some mem_id) false.
Definition wipe_args : Args := mkArgs None None None None true.

(** The line [search_memories] prints for a fetched row whose tags are
    not NULL. *)
Definition row_line (row : Z * sqltext * sqltext) (l : Line) : Prop :=
  exists tg, snd (fst row) = Some tg /\ l = Row (fst (fst row)) tg (snd row).

(** The id column of a fetched row. *)
Definition row_id (row : Z * sqltext * sqltext) : Z := fst (fst row).

(** The invocations whose branch in [main] is a deletion: neither [--save]
    nor [--search] is taken, and [--delete] is a non-zero id or [--wipe]
    is set. *)
Definition may_delete (args : Args) : bool :=
  negb (Text.truthy (save args)) && negb (Text.truthy (search args)) &&
  (Text.truthy_int (delete args) || wipe args).

(** A row with its text fields in ASCII lower case. *)
Definition fold_row (r : Memory) : Memory :=
  mkMemory (id r) (option_map fold_case (tags r))
           (option_map fold_case (content r)) (timestamp r).

End Spec.

(* ===================================================================== *)
(** ** Facts about text *)
(* ===================================================================== *)

Section TextFacts.
Import Text.

Lemma append_assoc (a b c : string) : ((a ++ b) ++ c = a ++ (b ++ c))%string.
Proof. induction a as [|x a IH]; simpl; [reflexivity | now rewrite IH]. Qed.

Lemma append_nil_r (a : string) : (a ++ "")%string = a.
Proof. induction a as [|x a IH]; simpl; [reflexivity | now rewrite IH]. Qed.

Lemma prefix_iff (q s : string) :
  prefix q s = true <-> exists b, s = (q ++ b)%string.
Proof.
  revert s; induction q as [|c q IH]; intros s.
  - split; [intros _; now exists s | intros _; now destruct s].
  - destruct s as [|d s]; simpl.
    + split; [discriminate | intros [b Hb]; discriminate].
    + destruct (ascii_dec c d) as [->|Hne].
      * rewrite IH. split; intros [b Hb]; exists b; congruence.
      * split; [discriminate | intros [b Hb]; congruence].
Qed.

Lemma occurs_inb_iff (q s : string) : occurs_inb q s = true <-> occurs_in q s.
Proof.
  unfold occurs_in. induction s as [|d s IH].
  - cbn [occurs_inb]. rewrite orb_false_r, prefix_iff. split.
    + intros [b Hb]. now exists ""%string, b.
    + intros [a [b Hb]]. destruct a; [now exists b | discriminate].
  - cbn [occurs_inb]. rewrite orb_true_iff, IH, prefix_iff. split.
    + intros [[b Hb] | [a [b Hb]]].
      * now exists ""%string, b.
      * exists (String d a), b. simpl. now rewrite Hb.
    + intros [a [b Hb]]. destruct a as [|x a]; simpl in Hb.
      * left. now exists b.
      * right. exists a, b. congruence.
Qed.

(** Only [y] and [Y] lowercase to [y]. *)
Lemma lower_char_y (c : ascii) :
  lower_char c = "y"%char <-> c = "y"%char \/ c = "Y"%char.
Proof.
  split.
  - destruct c as [[] [] [] [] [] [] [] []]; vm_compute; intros H;
      first [discriminate H | now left | now right].
  - intros [-> | ->]; reflexivity.
Qed.

Lemma lower_is_y (s : string) :
  lower s = "y"%string <-> s = "y"%string \/ s = "Y"%string.
Proof.
  split.
  - destruct s as [|c [|d s]]; simpl; try discriminate.
    intros H. injection H as H. apply lower_char_y in H. destruct H as [-> | ->]; auto.
  - intros [-> | ->]; reflexivity.
Qed.

End TextFacts.

(* ===================================================================== *)
(** ** Facts about LIKE *)
(* ===================================================================== *)

Section LikeFacts.
Import Sqlite.

Lemma patternCompare_percent (p s : string) :
  patternCompare (String "%" p) s =
  patternCompare p s ||
  match s with
  | EmptyString => false
  | String _ s' => patternCompare (String "%" p) s'
  end.
Proof. destruct s; reflexivity. Qed.

Lemma patternCompare_char (c : ascii) (p s : string) :
  (c =? "%")%char = false ->
  patternCompare (String c p) s =
  match s with
  | EmptyString => false
  | String d s' =>
      ((c =? "_")%char || (sqlite3Tolower c =? sqlite3Tolower d)%char)
      && patternCompare p s'
  end.
Proof. intros H. cbn [patternCompare]. now rewrite H. Qed.

(** [%p] matches [s] exactly when [p] matches a suffix of [s]. *)
Lemma percent_iff (p s : string) :
  patternCompare (String "%" p) s = true <->
  exists a b, s = (a ++ b)%string /\ patternCompare p b = true.
Proof.
  induction s as [|d s IH]; rewrite patternCompare_percent, orb_true_iff.
  - split.
    + intros [H | H]; [| discriminate]. now exists ""%string, ""%string.
    + intros [a [b [Hs Hb]]]. left.
      destruct a; [| discriminate]. simpl in Hs. now subst b.
  - rewrite IH. split.
    + intros [H | [a [b [Hs Hb]]]].
      * now exists ""%string, (String d s).
      * exists (String d a), b. simpl. now rewrite Hs.
    + intros [a [b [Hs Hb]]]. destruct a as [|x a]; simpl in Hs.
      * left. now subst b.
      * right. exists a, b. split; congruence.
Qed.

Lemma percent_matches_all (s : string) : patternCompare "%" s = true.
Proof.
  apply percent_iff. exists s, ""%string. now rewrite append_nil_r.
Qed.



Lemma fold_case_app (a b : string) :
  fold_case (a ++ b) = (fold_case a ++ fold_case b)%string.
Proof. induction a as [|x a IH]; simpl; [reflexivity | now rewrite IH]. Qed.




End LikeFacts.

(* ===================================================================== *)
(** ** Facts about the SELECT *)
(* ===================================================================== *)

Section SelectFacts.
Import Sqlite MemoryHandler Spec.
Local Open Scope list_scope.

Lemma in_sorter_insert (r x : Memory) (l : list Memory) :
  In x (sorter_insert r l) <-> x = r \/ In x l.
Proof.
  induction l as [|y l IH]; simpl.
  - intuition congruence.
  - destruct (timestamp y <? timestamp r); simpl; rewrite ?IH; intuition congruence.
Qed.

Lemma length_sorter_insert (r : Memory) (l : list Memory) :
  List.length (sorter_insert r l) = S (List.length l).
Proof.
  induction l as [|y l IH]; simpl; [reflexivity |].
  destruct (timestamp y <? timestamp r); simpl; [reflexivity | now rewrite IH].
Qed.

Lemma sorter_insert_sorted (r : Memory) (l : list Memory) :
  StronglySorted newest_first l -> StronglySorted newest_first (sorter_insert r l).
Proof.
  induction 1 as [|y l Hl IH Hy]; simpl.
  - repeat constructor.
  - destruct (timestamp y <? timestamp r) eqn:E.
    + apply Z.ltb_lt in E. constructor; [now constructor |].
      constructor; [unfold newest_first; lia |].
      eapply Forall_impl; [| exact Hy]. unfold newest_first. intros; lia.
    + apply Z.ltb_ge in E. constructor; [exact IH |].
      apply Forall_forall. intros x Hx. apply in_sorter_insert in Hx as [-> | Hx].
      * exact E.
      * rewrite Forall_forall in Hy. now apply Hy.
Qed.

(** The sorter keeps, for any test, as many rows passing it as went in. *)
Lemma count_sorter_insert (P : Memory -> bool) (r : Memory) (l : list Memory) :
  List.length (filter P (sorter_insert r l)) = List.length (filter P (r :: l)).
Proof.
  induction l as [|y l IH]; [reflexivity |].
  cbn [sorter_insert]. destruct (timestamp y <? timestamp r); [reflexivity |].
  cbn [filter] in *. destruct (P y), (P r); cbn [List.length] in *; lia.
Qed.

Lemma fold_sorter_spec (l acc : list Memory) :
  let out := fold_left (fun a r => sorter_insert r a) l acc in
  (StronglySorted newest_first acc -> StronglySorted newest_first out) /\
  (forall x, In x out <-> In x l \/ In x acc) /\
  List.length out = (List.length l + List.length acc)%nat /\
  (forall P, List.length (filter P out) =
             (List.length (filter P l) + List.length (filter P acc))%nat).
Proof.
  revert acc; induction l as [|r l IH]; intros acc; cbn [fold_left].
  - cbn. repeat split; tauto.
  - destruct (IH (sorter_insert r acc)) as [Hs [Hi [Hl Hc]]].
    cbv zeta. repeat split.
    + intros H. now apply Hs, sorter_insert_sorted.
    + rewrite Hi, in_sorter_insert. simpl. intuition congruence.
    + rewrite Hi, in_sorter_insert. simpl. intuition congruence.
    + rewrite Hl, length_sorter_insert. simpl. lia.
    + intros P. rewrite Hc, count_sorter_insert. cbn [filter].
      destruct (P r); cbn [List.length]; lia.
Qed.

Lemma order_by_sorted (l : list Memory) :
  StronglySorted newest_first (order_by_timestamp_desc l).
Proof. apply (fold_sorter_spec l []). constructor. Qed.

Lemma in_order_by (l : list Memory) (x : Memory) :
  In x (order_by_timestamp_desc l) <-> In x l.
Proof.
  unfold order_by_timestamp_desc.
  destruct (fold_sorter_spec l []) as [_ [Hi _]]. rewrite (Hi x). simpl. tauto.
Qed.

Lemma length_order_by (l : list Memory) :
  List.length (order_by_timestamp_desc l) = List.length l.
Proof.
  unfold order_by_timestamp_desc.
  destruct (fold_sorter_spec l []) as [_ [_ [Hl _]]]. rewrite Hl. simpl. lia.
Qed.



Lemma firstn_sorted (n : nat) (l : list Memory) :
  StronglySorted newest_first l -> StronglySorted newest_first (firstn n l).
Proof.
  intros H; revert n; induction H as [|y l Hl IH Hy]; intros [|n]; simpl;
    try constructor.
  - apply IH.
  - rewrite Forall_forall in *. intros x Hx. apply Hy.
    revert Hx. clear. revert n. induction l as [|z l IHl]; intros [|n]; simpl; try tauto.
    intros [-> | H]; [now left | right; eauto].
Qed.

Lemma in_firstn (n : nat) (l : list Memory) (x : Memory) :
  In x (firstn n l) -> In x l.
Proof.
  revert n; induction l as [|z l IHl]; intros [|n]; simpl; try tauto.
  intros [-> | H]; [now left | right; eauto].
Qed.



(** With one pattern for both operands, the WHERE clause fails exactly
    when the pattern is too long. *)
Lemma where_like_same (p : string) (r : Memory) :
  where_like p p r =
  if too_complex p then inl LikePatternTooComplex
  else inr (is_true (or3 (option_map (patternCompare p) (tags r))
                         (option_map (patternCompare p) (content r)))).
Proof.
  unfold where_like, like. destruct (too_complex p); [reflexivity |].
  destruct (tags r) as [tg|], (content r) as [ct|]; cbn;
    try destruct (patternCompare p tg); try destruct (patternCompare p ct);
    reflexivity.
Qed.

Lemma where_true_complex (p : string) (r : Memory) :
  too_complex p = true -> where_true p p r = false.
Proof. intros H. unfold where_true. now rewrite where_like_same, H. Qed.

(** What the WHERE clause asks of a row. *)
Lemma where_true_iff (p : string) (r : Memory) :
  where_true p p r = true <->
  too_complex p = false /\
  ((exists s, tags r = Some s /\ patternCompare p s = true) \/
   (exists s, content r = Some s /\ patternCompare p s = true)).
Proof.
  unfold where_true. rewrite where_like_same.
  destruct (too_complex p); [split; [discriminate | intros [H _]; discriminate H] |].
  assert (Hor : forall a b : option bool,
             is_true (or3 a b) = true <-> a = Some true \/ b = Some true)
    by (intros [[]|] [[]|]; cbn; intuition congruence).
  assert (Hmap : forall x : sqltext,
             option_map (patternCompare p) x = Some true <->
             exists s, x = Some s /\ patternCompare p s = true).
  { intros [s|]; cbn; split.
    - intros [= H]. now exists s.
    - intros [s' [[= <-] H]]. now rewrite H.
    - discriminate.
    - intros [s' [H _]]. discriminate H. }
  rewrite Hor, !Hmap. tauto.
Qed.

(** A scan that ends without error keeps the rows the WHERE clause is
    true for. *)
Lemma where_rows_inr (p1 p2 : string) (l kept : list Memory) :
  where_rows p1 p2 l = inr kept -> kept = filter (where_true p1 p2) l.
Proof.
  revert kept; induction l as [|r l IH]; intros kept; cbn [where_rows filter].
  - now intros [= <-].
  - unfold where_true. destruct (where_like p1 p2 r) as [e|b]; [discriminate |].
    destruct (where_rows p1 p2 l) as [e|k]; [discriminate |].
    intros [= <-]. rewrite (IH k eq_refl). now destruct b.
Qed.

Lemma where_rows_ok (p : string) (l : list Memory) :
  too_complex p = false ->
  where_rows p p l = inr (filter (where_true p p) l).
Proof.
  intros H. induction l as [|r l IH]; cbn [where_rows filter]; [reflexivity |].
  unfold where_true at 1. rewrite where_like_same, H, IH.
  now destruct (is_true _).
Qed.

Lemma where_rows_error (p : string) (l : list Memory) :
  too_complex p = true -> l <> [] ->
  where_rows p p l = inl LikePatternTooComplex.
Proof.
  intros H Hl. destruct l as [|r l]; [contradiction |].
  cbn [where_rows]. now rewrite where_like_same, H.
Qed.

Lemma in_newest_five (l : list Memory) (r : Memory) :
  In r (newest_five l) -> In r l.
Proof.
  unfold newest_five. intros H. apply in_firstn in H. now apply in_order_by.
Qed.


Lemma length_newest_five (l : list Memory) :
  List.length (newest_five l) = Nat.min 5 (List.length l).
Proof. unfold newest_five. now rewrite length_firstn, length_order_by. Qed.

Lemma newest_five_sorted (l : list Memory) :
  StronglySorted newest_first (newest_five l).
Proof. unfold newest_five. apply firstn_sorted, order_by_sorted. Qed.

(** *** What [fetchall] gives *)

Lemma fetchall_ok (query : string) (t : Table) :
  too_complex (pattern query) = false ->
  fetchall query t = inr (map columns (found query t)).
Proof.
  intros H. unfold fetchall, select, select_rows.
  now rewrite (where_rows_ok _ _ H).
Qed.

Lemma fetchall_error (query : string) (t : Table) :
  too_complex (pattern query) = true -> rows t <> [] ->
  fetchall query t = inl PatternTooComplex.
Proof.
  intros H Hl. unfold fetchall, select, select_rows.
  now rewrite (where_rows_error _ _ H Hl).
Qed.

Lemma fetchall_empty (query : string) (t : Table) :
  rows t = [] -> fetchall query t = inr [].
Proof.
  intros H. unfold fetchall, select, select_rows. now rewrite H.
Qed.

Lemma found_complex (query : string) (t : Table) :
  too_complex (pattern query) = true -> found query t = [].
Proof.
  intros H. unfold found, like_query.
  replace (filter _ (rows t)) with (@nil Memory); [reflexivity |].
  symmetry. induction (rows t) as [|r l IH]; [reflexivity |].
  cbn [filter]. now rewrite (where_true_complex _ r H).
Qed.

(** Whether the SELECT raises or not, [results] holds the columns of
    [found]. *)
Lemma results_found (query : string) (t : Table) :
  results query t = map columns (found query t).
Proof.
  unfold results. destruct (too_complex (pattern query)) eqn:E.
  - rewrite (found_complex _ _ E). destruct (rows t) as [|r l] eqn:El.
    + now rewrite (fetchall_empty _ _ El).
    + rewrite (fetchall_error _ _ E); [reflexivity |]. rewrite El. discriminate.
  - now rewrite (fetchall_ok _ _ E).
Qed.

Lemma in_found (query : string) (t : Table) (r : Memory) :
  In r (found query t) -> In r (rows t) /\ like_query query r = true.
Proof.
  unfold found. intros H. apply in_newest_five in H. now apply filter_In in H.
Qed.

End SelectFacts.

(* ===================================================================== *)
(** ** Facts about the calls *)
(* ===================================================================== *)

Section CallFacts.
Import Sqlite MemoryHandler Spec.
Local Open Scope list_scope.

Lemma create_table_of (db : Db) :
  create_table_if_not_exists db = Some (table_of db).
Proof. now destruct db. Qed.

(** [init_db] first, then the rest on the table it leaves. *)
Lemma init_db_then {A} (k : Py A) (db : Db) :
  (init_db ;; k) db = k (Some (table_of db)).
Proof.
  unfold bind, init_db. cbn. rewrite create_table_of.
  now destruct (k (Some (table_of db))).
Qed.

Lemma save_memory_run (now : Z) (text tags : sqltext) (t : Table) :
  save_memory now text tags (Some t) =
  match insert tags text now t with
  | inl NotNullConstraint => mkRun (Some t) [] (inl IntegrityError)
  | inl DatabaseFull => mkRun (Some t) [] (inl DatabaseIsFull)
  | inr t' => mkRun (Some t') [Saved tags] (inr tt)
  end.
Proof.
  unfold save_memory, bind, execute, print.
  now destruct (insert tags text now t) as [[]|t'].
Qed.

Lemma for_each_print_row_db (xs : list (Z * sqltext * sqltext)) (db : Db) :
  db_after (for_each xs print_row db) = db.
Proof.
  induction xs as [|[[i tg] ct] xs IH]; [reflexivity |].
  cbn [for_each]. unfold bind. destruct tg as [tg|]; cbn; [exact IH | reflexivity].
Qed.

Lemma search_memories_run (query : string) (t : Table) :
  search_memories query (Some t) =
  match fetchall query t with
  | inl e => mkRun (Some t) [] (inl e)
  | inr [] => mkRun (Some t) [NoResults query] (inr tt)
  | inr rs =>
      let r := for_each rs print_row (Some t) in
      mkRun (db_after r) (Header query :: printed r) (returned r)
  end.
Proof.
  unfold search_memories, bind, execute.
  now destruct (fetchall query t) as [e | [|row rs]].
Qed.

Lemma search_memories_db (query : string) (db : Db) :
  db_after (search_memories query db) = db.
Proof.
  destruct db as [t|]; [| reflexivity]. rewrite search_memories_run.
  destruct (fetchall query t) as [e | [|row rs]]; cbn; try reflexivity.
  apply (for_each_print_row_db (row :: rs)).
Qed.

Lemma search_memories_none (query : string) (t : Table) :
  fetchall query t = inr [] ->
  search_memories query (Some t) = mkRun (Some t) [NoResults query] (inr tt).
Proof. intros E. now rewrite search_memories_run, E. Qed.

(** When rows were fetched, the SELECT did not raise. *)
Lemma fetchall_results (query : string) (t : Table) :
  results query t <> [] -> fetchall query t = inr (results query t).
Proof.
  unfold results. now destruct (fetchall query t) as [e|rs].
Qed.

Lemma delete_memory_run (mem_id : Z) (t : Table) :
  delete_memory mem_id (Some t) =
  if fits_int64 mem_id
  then mkRun (Some (delete_where_id mem_id t)) [Deleted mem_id] (inr tt)
  else mkRun (Some t) [] (inl OverflowError).
Proof.
  unfold delete_memory, bind, execute, print. now destruct (fits_int64 mem_id).
Qed.

Lemma wipe_all_run (reply : string) (t : Table) :
  wipe_all (Some reply) (Some t) =
  if (Text.lower reply =? "y")%string
  then mkRun (Some (delete_all t)) [Prompt; Wiped] (inr tt)
  else mkRun (Some t) [Prompt] (inr tt).
Proof.
  unfold wipe_all, input, bind, execute, print, ret. cbn.
  now destruct (Text.lower reply =? "y")%string.
Qed.

Lemma wipe_all_eof (db : Db) :
  wipe_all None db = mkRun db [Prompt] (inl EOFError).
Proof. reflexivity. Qed.

(** *** The invariants, statement by statement *)

Lemma max_rowid_le (l : list Memory) (m : Z) :
  0 <= m -> Forall (fun r => id r <= m) l -> max_rowid l <= m.
Proof.
  intros Hm H. induction H as [|r l Hr Hl IH]; simpl; lia.
Qed.

Lemma last_rowid_inv (t : Table) : table_inv t -> last_rowid t = seq t.
Proof.
  intros [_ [Hall Hseq]]. unfold last_rowid.
  assert (max_rowid (rows t) <= seq t).
  { apply max_rowid_le; [lia |]. eapply Forall_impl; [| exact Hall].
    cbn. intros r Hr. lia. }
  lia.
Qed.

Lemma sorted_snoc (l : list Z) (a : Z) :
  StronglySorted Z.lt l -> Forall (fun x => x < a) l ->
  StronglySorted Z.lt (l ++ [a]).
Proof.
  induction 1 as [|x l Hl IH Hx]; intros Ha; simpl.
  - repeat constructor.
  - inversion Ha as [|? ? Hxa Hla]; subst. constructor; [now apply IH |].
    apply Forall_app. split; [exact Hx | now repeat constructor].
Qed.

Lemma sorted_filter (f : Memory -> bool) (l : list Memory) :
  StronglySorted Z.lt (map id l) -> StronglySorted Z.lt (map id (filter f l)).
Proof.
  induction l as [|r l IH]; simpl; [trivial |].
  intros H. inversion H as [|? ? Hl Hr]; subst.
  destruct (f r); simpl; [| now apply IH].
  constructor; [now apply IH |].
  rewrite Forall_forall in *. intros x Hx. apply Hr.
  apply in_map_iff in Hx as [y [<- Hy]]. apply filter_In in Hy as [Hy _].
  now apply in_map.
Qed.

Lemma extends_refl (db : Db) : extends db db.
Proof. split; [lia | now left]. Qed.

Lemma extends_trans (a b c : Db) : extends a b -> extends b c -> extends a c.
Proof.
  intros [H1 H2] [H3 H4]. split; [lia |].
  intros r Hr. destruct (H4 r Hr) as [Hb | Hb]; [now apply H2 | right; lia].
Qed.

Lemma insert_inv (tags_ content_ : sqltext) (now : Z) (t t' : Table) :
  table_inv t -> insert tags_ content_ now t = inr t' ->
  table_inv t' /\ extends (Some t) (Some t').
Proof.
  intros Hinv. pose proof (last_rowid_inv t Hinv) as Hlast.
  destruct Hinv as [Hsorted [Hall Hseq]]. unfold insert.
  destruct (MAX_ROWID <=? last_rowid t) eqn:Hfull; [discriminate |].
  destruct content_ as [c|]; [| discriminate].
  apply Z.leb_gt in Hfull. rewrite Hlast in *. intros [= <-].
  split; [split; [| split] | split]; cbn.
  - rewrite map_app. apply sorted_snoc; [exact Hsorted |].
    apply Forall_map. eapply Forall_impl; [| exact Hall]. cbn. intros r Hr. lia.
  - apply Forall_app. split.
    + eapply Forall_impl; [| exact Hall]. cbn. intros r Hr. split; [lia | tauto].
    + constructor; [| constructor]. cbn. split; [lia | discriminate].
  - lia.
  - unfold seq_of. cbn. lia.
  - unfold rows_of, seq_of. cbn. intros r Hr.
    apply in_app_or in Hr as [Hr | [<- | []]]; [now left | right; cbn; lia].
Qed.

Lemma delete_where_id_inv (mem_id : Z) (t : Table) :
  table_inv t ->
  table_inv (delete_where_id mem_id t) /\
  extends (Some t) (Some (delete_where_id mem_id t)).
Proof.
  intros [Hsorted [Hall Hseq]]. split; [split; [| split] | split]; cbn.
  - now apply sorted_filter.
  - apply Forall_forall. intros r Hr. apply filter_In in Hr as [Hr _].
    rewrite Forall_forall in Hall. now apply Hall.
  - exact Hseq.
  - unfold seq_of. cbn. lia.
  - unfold rows_of. cbn. intros r Hr. apply filter_In in Hr as [Hr _]. now left.
Qed.

Lemma delete_all_inv (t : Table) :
  table_inv t ->
  table_inv (delete_all t) /\ extends (Some t) (Some (delete_all t)).
Proof.
  intros [Hsorted [Hall Hseq]]. split; [split; [| split] | split]; cbn.
  - constructor.
  - constructor.
  - exact Hseq.
  - unfold seq_of. cbn. lia.
  - intros r [].
Qed.

Lemma init_db_inv (db : Db) :
  Inv db -> Inv (Some (table_of db)) /\ extends db (Some (table_of db)).
Proof.
  intros H. split.
  - destruct db as [t|]; [exact H |].
    split; [constructor | split; [constructor | cbn; unfold MAX_ROWID; lia]].
  - split; [unfold seq_of; cbn; lia | intros r Hr; now left].
Qed.

Lemma save_memory_inv (now : Z) (text tags : sqltext) (db : Db) :
  Inv db ->
  Inv (db_after (save_memory now text tags db)) /\
  extends db (db_after (save_memory now text tags db)).
Proof.
  intros H. destruct db as [t|]; [| split; [exact I | apply extends_refl]].
  rewrite save_memory_run.
  destruct (insert tags text now t) as [[]|t'] eqn:E; cbn [db_after];
    try (split; [exact H | apply extends_refl]).
  exact (insert_inv _ _ _ _ _ H E).
Qed.

Lemma delete_memory_inv (mem_id : Z) (db : Db) :
  Inv db ->
  Inv (db_after (delete_memory mem_id db)) /\
  extends db (db_after (delete_memory mem_id db)).
Proof.
  intros H. destruct db as [t|]; [| split; [exact I | apply extends_refl]].
  rewrite delete_memory_run. destruct (fits_int64 mem_id); cbn [db_after].
  - now apply delete_where_id_inv.
  - split; [exact H | apply extends_refl].
Qed.

Lemma wipe_all_inv (stdin : option string) (db : Db) :
  Inv db ->
  Inv (db_after (wipe_all stdin db)) /\ extends db (db_after (wipe_all stdin db)).
Proof.
  intros H. destruct stdin as [reply|];
    [| rewrite wipe_all_eof; split; [exact H | apply extends_refl]].
  destruct db as [t|].
  - rewrite wipe_all_run. destruct (Text.lower reply =? "y")%string; cbn [db_after].
    + now apply delete_all_inv.
    + split; [exact H | apply extends_refl].
  - unfold wipe_all, input, bind, execute, print, ret. cbn.
    destruct (Text.lower reply =? "y")%string; cbn; split;
      try exact I; apply extends_refl.
Qed.

Lemma main_inv (args : Args) (now : Z) (stdin : option string) (db : Db) :
  Inv db ->
  Inv (db_after (main args now stdin db)) /\
  extends db (db_after (main args now stdin db)).
Proof.
  intros H. unfold main. rewrite init_db_then.
  destruct (init_db_inv db H) as [H1 E1].
  assert (forall m : Py unit,
             (forall d, Inv d -> Inv (db_after (m d)) /\ extends d (db_after (m d))) ->
             Inv (db_after (m (Some (table_of db)))) /\
             extends db (db_after (m (Some (table_of db))))) as Hchain.
  { intros m Hm. destruct (Hm _ H1) as [H2 E2]. split; [exact H2 |].
    exact (extends_trans _ _ _ E1 E2). }
  assert (forall d, Inv d -> Inv (db_after (ret tt d)) /\ extends d (db_after (ret tt d)))
    as Hret by (intros d Hd; split; [exact Hd | exact (extends_refl d)]).
  destruct (Text.truthy (save args));
    [apply Hchain; intros d Hd; now apply save_memory_inv |].
  destruct (Text.truthy (search args)).
  { apply Hchain. intros d Hd. destruct (search args); [| now apply Hret].
    rewrite search_memories_db. split; [exact Hd | apply extends_refl]. }
  destruct (Text.truthy_int (delete args)).
  { apply Hchain. intros d Hd. destruct (delete args); [| now apply Hret].
    now apply delete_memory_inv. }
  destruct (wipe args); apply Hchain; intros d Hd;
    [now apply wipe_all_inv | now apply Hret].
Qed.

Lemma step_inv (op : Op) (db : Db) :
  Inv db -> Inv (step db op) /\ extends db (step db op).
Proof.
  intros H. unfold step. destruct op; cbn [call].
  - unfold init_db. cbn. rewrite create_table_of. now apply init_db_inv.
  - now apply save_memory_inv.
  - rewrite search_memories_db. split; [exact H | apply extends_refl].
  - now apply delete_memory_inv.
  - now apply wipe_all_inv.
  - now apply main_inv.
Qed.

Lemma run_inv (ops : list Op) (db : Db) :
  Inv db -> Inv (run ops db) /\ extends db (run ops db).
Proof.
  revert db; induction ops as [|op ops IH]; intros db H; cbn.
  - split; [exact H | apply extends_refl].
  - destruct (step_inv op db H) as [H1 E1].
    destruct (IH _ H1) as [H2 E2]. split; [exact H2 |].
    eapply extends_trans; eassumption.
Qed.

End CallFacts.

(* ===================================================================== *)
(** ** Searching *)
(* ===================================================================== *)

Section Searching.
Import Sqlite MemoryHandler Spec.
Local Open Scope list_scope.

Lemma utf8_length_app (a b : string) :
  utf8_length (a ++ b) = utf8_length a + utf8_length b.
Proof. induction a as [|c a IH]; cbn [append utf8_length]; lia. Qed.

(** The pattern of a query is two bytes longer than the query. *)
Lemma too_complex_pattern (query : string) :
  too_complex (pattern query) = false <-> utf8_length query <= 49998.
Proof.
  unfold too_complex, pattern, SQLITE_MAX_LIKE_PATTERN_LENGTH.
  rewrite Z.ltb_ge, !utf8_length_app.
  change (utf8_length "%") with 1. lia.
Qed.

Lemma like_query_iff (query : string) (r : Memory) :
  like_query query r = true <->
  too_complex (pattern query) = false /\
  ((exists s, tags r = Some s /\ patternCompare (pattern query) s = true) \/
   (exists s, content r = Some s /\ patternCompare (pattern query) s = true)).
Proof. apply where_true_iff. Qed.





Lemma filter_nothing (f : Memory -> bool) (l : list Memory) :
  (forall r, In r l -> f r = false) -> filter f l = [].
Proof.
  induction l as [|x l IH]; simpl; [trivial |]. intros H.
  rewrite (H x) by now left. apply IH. intros r Hr. apply H. now right.
Qed.





(** C2, as the code has it, for text without NUL and a query of at most
    49998 bytes: the SELECT does not raise, the rows [search_memories]
    fetches are at most five and in descending order of timestamp, and
    when no row satisfies the WHERE clause nothing is fetched and the call
    prints the no-results line and ends without an exception. *)
Theorem search_at_most_five_newest_first (query : string) (t : Table) :
  nul_free query = true -> table_nul_free t = true ->
  utf8_length query <= 49998 ->
  fetchall query t = inr (results query t) /\
  results query t = map columns (found query t) /\
  (List.length (results query t) <= 5)%nat /\
  StronglySorted newest_first (found query t) /\
  ((forall r, In r (rows t) -> like_query query r = false) ->
   results query t = [] /\
   search_memories query (Some t) = mkRun (Some t) [NoResults query] (inr tt)).
Proof.
  intros _ _ Hfit. apply too_complex_pattern in Hfit.
  assert (Hfetch : fetchall query t = inr (results query t))
    by (rewrite results_found; now apply fetchall_ok).
  split; [exact Hfetch |]. split; [apply results_found |]. split; [| split].
  - rewrite results_found, length_map. unfold found.
    rewrite length_newest_five. apply Nat.le_min_l.
  - apply newest_five_sorted.
  - intros Hnone.
    assert (E : results query t = []).
    { rewrite results_found. unfold found.
      now rewrite (filter_nothing (like_query query) _ Hnone). }
    split; [exact E |]. apply search_memories_none. now rewrite Hfetch, E.
Qed.

Lemma search_at_most_five_newest_first_witness :
  search_memories "login" (Some (mkTable [mkMemory 1 (Some "misc") (Some "buy milk") 7] 1))
  = mkRun (Some (mkTable [mkMemory 1 (Some "misc") (Some "buy milk") 7] 1))
          [NoResults "login"] (inr tt).
Proof.
  destruct (search_at_most_five_newest_first "login"
              (mkTable [mkMemory 1 (Some "misc") (Some "buy milk") 7] 1)
              eq_refl eq_refl) as [_ [_ [_ [_ Hnone]]]];
    [vm_compute; discriminate |].
  apply Hnone. intros r [<- | []]. reflexivity.
Defined.

(** C2, as stated, fails for a long query: with a query of 49999 letters,
    which no note of the table contains, the search of a table that holds
    one note does not report "no results" but raises "LIKE or GLOB pattern
    too complex". *)
Lemma search_long_query_counterexample :
  let r := mkMemory 1 (Some "bugs") (Some "fix login bug") 100 in
  utf8_length long_query = 49999 /\
  ~ contains_query long_query r /\
  search_memories long_query (Some (mkTable [r] 1)) =
  mkRun (Some (mkTable [r] 1)) [] (inl PatternTooComplex).
Proof.
  cbv zeta. split; [vm_compute; reflexivity |]. split.
  - intros [[s [E H]] | [s [E H]]]; cbn in E; injection E as <-;
      apply occurs_inb_iff in H; vm_compute in H; discriminate H.
  - vm_compute. reflexivity.
Qed.

End Searching.

(* ===================================================================== *)
(** ** Saving *)
(* ===================================================================== *)

Section Saving.
Import Sqlite MemoryHandler Spec.
Local Open Scope list_scope.

Lemma insert_ok (tags_ : sqltext) (text : string) (now : Z) (t : Table) :
  last_rowid t < MAX_ROWID ->
  insert tags_ (Some text) now t =
  inr (mkTable (rows t ++ [mkMemory (last_rowid t + 1) tags_ (Some text) now])
               (last_rowid t + 1)).
Proof.
  intros H. unfold insert.
  replace (MAX_ROWID <=? last_rowid t) with false; [reflexivity |].
  symmetry. apply Z.leb_gt. exact H.
Qed.

Lemma max_rowid_ge (l : list Memory) : Forall (fun r => id r <= max_rowid l) l.
Proof.
  induction l as [|x l IH]; simpl; constructor; [lia |].
  eapply Forall_impl; [| exact IH]. cbn. intros r Hr. lia.
Qed.

(** The id AUTOINCREMENT hands out is above every id in the table. *)
Lemma last_rowid_above (t : Table) :
  Forall (fun r => id r < last_rowid t + 1) (rows t).
Proof.
  eapply Forall_impl; [| apply max_rowid_ge]. cbn. unfold last_rowid. intros r Hr. lia.
Qed.





(** C6, as the code has it: [--save text] with a text that is not empty
    and no [--tags], on a table that can still hand out an id, appends one
    row with the tags "general", that text, the time of the call, and an
    id one above the largest the table holds or has handed out, hence
    above the id of every row in the table. *)
Theorem save_without_tags (c : ascii) (text : string)
    (search_ : option string) (delete_ : option Z) (wipe_ : bool)
    (now : Z) (stdin : option string) (db : Db) :
  let t := table_of db in
  let mem_id := last_rowid t + 1 in
  let memory := mkMemory mem_id (Some "general") (Some (String c text)) now in
  last_rowid t < MAX_ROWID ->
  main (mkArgs (Some (String c text)) None search_ delete_ wipe_) now stdin db =
    mkRun (Some (mkTable (rows t ++ [memory]) mem_id))
          [Saved (Some "general")] (inr tt) /\
  Forall (fun r => id r < mem_id) (rows t).
Proof.
  cbv zeta. intros Hroom. split; [| apply last_rowid_above].
  unfold main. rewrite init_db_then. cbn [save Text.truthy tags_arg Text.or_else].
  now rewrite save_memory_run, (insert_ok _ _ _ _ Hroom).
Qed.

Lemma save_without_tags_witness :
  main (save_args "hello world") 100 None None =
    mkRun (Some (mkTable [mkMemory 1 (Some "general") (Some "hello world") 100] 1))
          [Saved (Some "general")] (inr tt) /\
  Forall (fun r => id r < 1) [].
Proof.
  apply (save_without_tags "h" "ello world" None None false 100 None None).
  reflexivity.
Defined.

(** C6, as stated, fails for the empty content: [--save ''] stores
    nothing, the empty string being falsy. *)
Lemma save_empty_content_counterexample :
  main (save_args "") 100 None (Some (mkTable [] 0)) =
  mkRun (Some (mkTable [] 0)) [] (inr tt).
Proof. reflexivity. Qed.

Lemma sorted_lt_NoDup (l : list Z) : StronglySorted Z.lt l -> NoDup l.
Proof.
  induction 1 as [|x l Hl IH Hx]; constructor; [| exact IH].
  intros Hin. rewrite Forall_forall in Hx. specialize (Hx x Hin). lia.
Qed.

(** C8: along any sequence of calls from a database that satisfies the
    invariants, the invariants hold at the end: ids are pairwise distinct
    and no content is NULL.  Every row at the end is a row of the start,
    unchanged, or has an id above every id the start had handed out, its
    rows' ids among them. *)
Theorem store_invariants (ops : list Op) (db : Db) :
  Inv db ->
  let db' := run ops db in
  Inv db' /\
  NoDup (map id (rows_of db')) /\
  Forall (fun r => content r <> None) (rows_of db') /\
  seq_of db <= seq_of db' /\
  forall r', In r' (rows_of db') ->
    In r' (rows_of db) \/
    (seq_of db < id r' /\ forall r, In r (rows_of db) -> id r < id r').
Proof.
  intros H. cbv zeta. destruct (run_inv ops db H) as [H' [Hseq Hrows]].
  split; [exact H' |].
  assert (Hafter : table_inv (table_of (run ops db))).
  { destruct (run ops db) as [t|]; [exact H' |].
    split; [constructor | split; [constructor | cbn; unfold MAX_ROWID; lia]]. }
  assert (Hbefore : Forall (fun r => id r <= seq_of db) (rows_of db)).
  { unfold rows_of, seq_of. destruct db as [t|]; [| constructor].
    destruct H as [_ [Hall _]]. eapply Forall_impl; [| exact Hall].
    cbn. intros r Hr. lia. }
  destruct Hafter as [Hsorted [Hall _]].
  split; [now apply sorted_lt_NoDup |].
  split; [eapply Forall_impl; [| exact Hall]; cbn; tauto |].
  split; [exact Hseq |].
  intros r' Hr'. destruct (Hrows r' Hr') as [Hold | Hnew]; [now left | right].
  split; [exact Hnew |]. intros r Hr.
  rewrite Forall_forall in Hbefore. specialize (Hbefore r Hr). lia.
Qed.

Lemma store_invariants_witness :
  NoDup (map id (rows_of (run [Main (save_args "a") 1 None;
                               Delete 1;
                               Main (save_args "b") 2 None] None))).
Proof.
  apply (store_invariants [Main (save_args "a") 1 None;
                           Delete 1;
                           Main (save_args "b") 2 None] None).
  exact I.
Defined.

End Saving.

(* ===================================================================== *)
(** ** Deleting, wiping and initialising *)
(* ===================================================================== *)

Section Removing.
Import Sqlite MemoryHandler Spec.
Local Open Scope list_scope.

Lemma filter_all (f : Memory -> bool) (l : list Memory) :
  (forall r, In r l -> f r = true) -> filter f l = l.
Proof.
  induction l as [|x l IH]; simpl; [trivial |]. intros H.
  rewrite (H x) by now left. f_equal. apply IH. intros r Hr. apply H. now right.
Qed.

(** C4: [--wipe] deletes only on an affirmative reply.  Whatever the
    reply, the call ends without an exception; on a reply whose lower case
    is "y" the table is left without rows; on any other reply the table is
    as [init_db] left it, rows and counter.  With no reply at all (end of
    input) the table is untouched as well. *)
Theorem wipe_asks_first (db : Db) (now : Z) (reply : string) :
  let r := main wipe_args now (Some reply) db in
  returned r = inr tt /\
  (Text.lower reply = "y"%string -> db_after r = Some (mkTable [] (seq_of db))) /\
  (Text.lower reply <> "y"%string -> db_after r = Some (table_of db)) /\
  db_after (main wipe_args now None db) = Some (table_of db).
Proof.
  cbv zeta. unfold main. rewrite !init_db_then. cbn -[wipe_all].
  rewrite wipe_all_run, wipe_all_eof.
  destruct (Text.lower reply =? "y")%string eqn:E; cbn.
  - apply String.eqb_eq in E. repeat split; congruence.
  - apply String.eqb_neq in E. repeat split; congruence.
Qed.

Lemma wipe_asks_first_witness :
  let db := Some (mkTable [mkMemory 1 (Some "bugs") (Some "fix login bug") 100] 1) in
  db_after (main wipe_args 101 (Some "Y") db) = Some (mkTable [] 1) /\
  db_after (main wipe_args 101 (Some "n") db) = db.
Proof.
  cbv zeta. split.
  - destruct (wipe_asks_first
                (Some (mkTable [mkMemory 1 (Some "bugs") (Some "fix login bug") 100] 1))
                101 "Y") as [_ [Hyes _]].
    apply Hyes. reflexivity.
  - destruct (wipe_asks_first
                (Some (mkTable [mkMemory 1 (Some "bugs") (Some "fix login bug") 100] 1))
                101 "n") as [_ [_ [Hno _]]].
    apply Hno. discriminate.
Defined.

(** C5, as the code has it: for an id that fits a signed 64-bit integer,
    [delete_memory] ends without an exception and leaves exactly the rows
    whose id is another, in their order and unchanged; when no row has the
    id, the table is as it was. *)
Theorem delete_removes_that_id (mem_id : Z) (t : Table) :
  fits_int64 mem_id = true ->
  let r := delete_memory mem_id (Some t) in
  returned r = inr tt /\
  seq_of (db_after r) = seq t /\
  rows_of (db_after r) = filter (fun m => negb (id m =? mem_id)) (rows t) /\
  (forall m, In m (rows_of (db_after r)) <-> In m (rows t) /\ id m <> mem_id) /\
  (~ In mem_id (map id (rows t)) -> db_after r = Some t).
Proof.
  intros Hfits. cbv zeta. rewrite delete_memory_run, Hfits. cbn [returned db_after].
  split; [reflexivity |]. split; [reflexivity |]. split; [reflexivity |]. split.
  - intros m. unfold rows_of. cbn. rewrite filter_In, negb_true_iff, Z.eqb_neq. tauto.
  - intros Habsent. unfold delete_where_id. rewrite filter_all; [now destruct t |].
    intros m Hm. apply negb_true_iff, Z.eqb_neq. intros E. apply Habsent.
    rewrite <- E. now apply in_map.
Qed.

Lemma delete_removes_that_id_witness :
  let t := mkTable [mkMemory 1 (Some "bugs") (Some "fix login bug") 100;
                    mkMemory 2 (Some "general") (Some "hello world") 101] 2 in
  rows_of (db_after (delete_memory 1 (Some t))) =
    [mkMemory 2 (Some "general") (Some "hello world") 101] /\
  db_after (delete_memory 7 (Some t)) = Some t.
Proof.
  cbv zeta. split.
  - destruct (delete_removes_that_id 1
                (mkTable [mkMemory 1 (Some "bugs") (Some "fix login bug") 100;
                          mkMemory 2 (Some "general") (Some "hello world") 101] 2)
                eq_refl) as [_ [_ [Hrows _]]].
    exact Hrows.
  - destruct (delete_removes_that_id 7
                (mkTable [mkMemory 1 (Some "bugs") (Some "fix login bug") 100;
                          mkMemory 2 (Some "general") (Some "hello world") 101] 2)
                eq_refl) as [_ [_ [_ [_ Habsent]]]].
    apply Habsent. cbn. intros [H | [H | []]]; discriminate H.
Defined.

(** C5, as stated, fails for an integer beyond 64 bits: [--delete
    9223372036854775808] names an id that no row has, and the call ends
    with OverflowError (the rows stay as they are). *)
Lemma delete_huge_id_counterexample :
  let t := mkTable [mkMemory 1 (Some "bugs") (Some "fix login bug") 100] 1 in
  ~ In 9223372036854775808 (map id (rows t)) /\
  main (delete_args 9223372036854775808) 101 None (Some t) =
  mkRun (Some t) [] (inl OverflowError).
Proof.
  cbv zeta. split; [| reflexivity].
  cbn. intros [H | []]. discriminate H.
Qed.

(** C7: [init_db] never raises; on a database that has the table it
    changes nothing; and a second call leaves what the first one left. *)
Theorem init_db_idempotent (db : Db) (t : Table) :
  returned (init_db db) = inr tt /\
  init_db (Some t) = mkRun (Some t) [] (inr tt) /\
  init_db (db_after (init_db db)) = init_db db /\
  rows_of (db_after (init_db db)) = rows_of db.
Proof.
  unfold init_db. cbn. rewrite !create_table_of. repeat split.
Qed.

(** C9: [--delete 0] is not a deletion: with that argument [main] does
    what it does without [--delete], and alone on the command line it
    prints nothing, raises nothing and leaves every row in place. *)
Theorem delete_zero_is_ignored (save_ tags_ search_ : option string) (wipe_ : bool)
    (now : Z) (stdin : option string) (db : Db) :
  main (mkArgs save_ tags_ search_ (Some 0) wipe_) now stdin db =
  main (mkArgs save_ tags_ search_ None wipe_) now stdin db /\
  main (delete_args 0) now stdin db = mkRun (Some (table_of db)) [] (inr tt) /\
  rows_of (db_after (main (delete_args 0) now stdin db)) = rows_of db.
Proof.
  split; [reflexivity |]. unfold main. rewrite init_db_then. split; reflexivity.
Qed.

(** C10: [wipe_all] deletes exactly when the lower case of the reply is
    "y", that is when the reply is "y" or "Y"; the reply "yes" leaves the
    table as it is. *)
Theorem wipe_confirmation_is_y (reply : string) (t : Table) :
  wipe_all (Some reply) (Some t) =
    (if (Text.lower reply =? "y")%string
     then mkRun (Some (mkTable [] (seq t))) [Prompt; Wiped] (inr tt)
     else mkRun (Some t) [Prompt] (inr tt)) /\
  (In Wiped (printed (wipe_all (Some reply) (Some t))) <-> Text.lower reply = "y"%string) /\
  (Text.lower reply = "y"%string <-> reply = "y"%string \/ reply = "Y"%string) /\
  wipe_all (Some "yes"%string) (Some t) = mkRun (Some t) [Prompt] (inr tt).
Proof.
  rewrite !wipe_all_run. split; [reflexivity |]. split; [| split; [apply lower_is_y | reflexivity]].
  destruct (Text.lower reply =? "y")%string eqn:E; cbn.
  - apply String.eqb_eq in E. split; [intros _; exact E | intros _; tauto].
  - apply String.eqb_neq in E. split; [| contradiction].
    intros [H | []]. discriminate H.
Qed.

End Removing.

(* ===================================================================== *)
(** ** Further properties: what a search prints and touches *)
(* ===================================================================== *)

Section SearchOutput.
Import Sqlite MemoryHandler Spec.
Local Open Scope list_scope.

Lemma bind_print_run {A} (l : Line) (k : Py A) (db : Db) :
  (print l ;; k) db =
  mkRun (db_after (k db)) (l :: printed (k db)) (returned (k db)).
Proof. reflexivity. Qed.

Lemma for_each_rows_ok (rs : list (Z * sqltext * sqltext)) (db : Db) :
  Forall (fun row => snd (fst row) <> None) rs ->
  exists lines,
    for_each rs print_row db = mkRun db lines (inr tt) /\ Forall2 row_line rs lines.
Proof.
  induction 1 as [|[[i tg] ct] rs Hrow Hrs [lines [E F]]].
  - exists []. split; [reflexivity | constructor].
  - destruct tg as [tg|]; [| now cbn in Hrow].
    exists (Row i tg ct :: lines). split.
    + cbn [for_each print_row]. rewrite bind_print_run, E. reflexivity.
    + constructor; [now exists tg | exact F].
Qed.

Lemma for_each_rows_null (rs : list (Z * sqltext * sqltext)) (db : Db) :
  Exists (fun row => snd (fst row) = None) rs ->
  returned (for_each rs print_row db) = inl AttributeError.
Proof.
  induction rs as [|[[i tg] ct] rs IH]; intros H; [inversion H |].
  cbn [for_each print_row]. destruct tg as [tg|].
  - rewrite bind_print_run. cbn [returned]. apply IH.
    inversion H as [? ? Hhd | ? ? Htl]; subst; [discriminate Hhd | exact Htl].
  - reflexivity.
Qed.

Lemma for_each_rows_outcome (rs : list (Z * sqltext * sqltext)) (db : Db) :
  returned (for_each rs print_row db) = inr tt \/
  returned (for_each rs print_row db) = inl AttributeError.
Proof.
  induction rs as [|[[i tg] ct] rs IH]; [now left |].
  cbn [for_each print_row]. destruct tg as [tg|]; [| now right].
  rewrite bind_print_run. exact IH.
Qed.

(** X1: a search never changes the database, whatever it finds and
    however it ends; through [--search] with a query that is not empty the
    table is the one [init_db] leaves. *)
Theorem search_is_read_only (query : string) (db : Db) (c : ascii)
    (tags_ : option string) (delete_ : option Z) (wipe_ : bool)
    (now : Z) (stdin : option string) :
  db_after (search_memories query db) = db /\
  db_after (main (mkArgs None tags_ (Some (String c query)) delete_ wipe_) now stdin db)
  = Some (table_of db).
Proof.
  split; [apply search_memories_db |].
  unfold main. rewrite init_db_then. cbn [save search Text.truthy].
  apply search_memories_db.
Qed.

(** X2: when the search fetches rows and none of them has NULL tags, the
    call prints the header and then one line per fetched row, in the order
    fetched, and ends without an exception. *)
Theorem search_prints_each_result (query : string) (t : Table) :
  results query t <> [] ->
  Forall (fun row => snd (fst row) <> None) (results query t) ->
  exists lines,
    search_memories query (Some t) = mkRun (Some t) (Header query :: lines) (inr tt) /\
    Forall2 row_line (results query t) lines.
Proof.
  intros Hne Hall. rewrite search_memories_run, (fetchall_results _ _ Hne).
  destruct (for_each_rows_ok (results query t) (Some t) Hall) as [lines [E F]].
  exists lines. split; [| exact F].
  destruct (results query t) as [|row rs]; [contradiction |].
  cbv zeta. now rewrite E.
Qed.

Lemma search_prints_each_result_witness :
  exists lines,
    search_memories "login"
      (Some (mkTable [mkMemory 1 (Some "bugs") (Some "fix login bug") 100] 1)) =
    mkRun (Some (mkTable [mkMemory 1 (Some "bugs") (Some "fix login bug") 100] 1))
          (Header "login" :: lines) (inr tt) /\
    Forall2 row_line
      (results "login" (mkTable [mkMemory 1 (Some "bugs") (Some "fix login bug") 100] 1))
      lines.
Proof.
  apply (search_prints_each_result "login"
           (mkTable [mkMemory 1 (Some "bugs") (Some "fix login bug") 100] 1)).
  - discriminate.
  - repeat constructor. discriminate.
Defined.

(** X3: a row saved with [tags=None] breaks the searches that fetch it:
    the call ends with AttributeError (from [tags.upper()]), the database
    untouched. *)
Theorem search_null_tags_raises (query : string) (t : Table)
    (mem_id : Z) (content_ : sqltext) :
  In (mem_id, None, content_) (results query t) ->
  returned (search_memories query (Some t)) = inl AttributeError /\
  db_after (search_memories query (Some t)) = Some t.
Proof.
  intros Hin. split; [| apply search_memories_db].
  assert (Hne : results query t <> []) by (intros E; now rewrite E in Hin).
  rewrite search_memories_run, (fetchall_results _ _ Hne).
  assert (Hex : Exists (fun row => snd (fst row) = None) (results query t))
    by (apply Exists_exists; now exists (mem_id, None, content_)).
  destruct (results query t) as [|row rs]; [inversion Hex |].
  cbv zeta. cbn [returned]. now apply for_each_rows_null.
Qed.

Lemma search_null_tags_raises_witness :
  let db := db_after (save_memory 5 (Some "call the bank") None (Some (mkTable [] 0))) in
  returned (search_memories "bank" db) = inl AttributeError.
Proof.
  cbv zeta.
  apply (search_null_tags_raises "bank"
           (mkTable [mkMemory 1 None (Some "call the bank") 5] 1) 1 (Some "call the bank")).
  now left.
Defined.

End SearchOutput.

(* ===================================================================== *)
(** ** Further properties: how the calls compose *)
(* ===================================================================== *)

Section Composition.
Import Sqlite MemoryHandler Spec.
Local Open Scope list_scope.



Lemma filter_twice (f : Memory -> bool) (l : list Memory) :
  filter f (filter f l) = filter f l.
Proof.
  induction l as [|x l IH]; simpl; [reflexivity |].
  destruct (f x) eqn:E; simpl; [rewrite E; now f_equal | exact IH].
Qed.



Lemma save_memory_on_table (now : Z) (text tags : sqltext) (t : Table) :
  db_after (save_memory now text tags (Some t)) <> None /\
  returned (save_memory now text tags (Some t)) <> inl NoSuchTable.
Proof.
  rewrite save_memory_run. destruct (insert tags text now t) as [[]|t'];
    cbn; split; discriminate.
Qed.

Lemma search_memories_on_table (query : string) (t : Table) :
  db_after (search_memories query (Some t)) <> None /\
  returned (search_memories query (Some t)) <> inl NoSuchTable.
Proof.
  split; [rewrite search_memories_db; discriminate |].
  rewrite search_memories_run. unfold fetchall.
  destruct (select (pattern query) (pattern query) t) as [[] | [|row rs]];
    try discriminate.
  cbv zeta. cbn [returned].
  destruct (for_each_rows_outcome (row :: rs) (Some t)) as [E | E];
    rewrite E; discriminate.
Qed.

Lemma delete_memory_on_table (mem_id : Z) (t : Table) :
  db_after (delete_memory mem_id (Some t)) <> None /\
  returned (delete_memory mem_id (Some t)) <> inl NoSuchTable.
Proof.
  rewrite delete_memory_run. destruct (fits_int64 mem_id); cbn; split; discriminate.
Qed.

Lemma wipe_all_on_table (stdin : option string) (t : Table) :
  db_after (wipe_all stdin (Some t)) <> None /\
  returned (wipe_all stdin (Some t)) <> inl NoSuchTable.
Proof.
  destruct stdin as [reply|]; [| rewrite wipe_all_eof; cbn; split; discriminate].
  rewrite wipe_all_run. destruct (Text.lower reply =? "y")%string;
    cbn; split; discriminate.
Qed.

(** X5: [main] creates the table before anything else, so whatever the
    arguments it never ends with "no such table" and always leaves a
    table behind; each of the other functions, called on a database
    without the table, ends with that error and creates nothing. *)
Theorem main_creates_table (args : Args) (now : Z) (stdin : option string) (db : Db)
    (text tags : sqltext) (query : string) (mem_id : Z) :
  db_after (main args now stdin db) <> None /\
  returned (main args now stdin db) <> inl NoSuchTable /\
  save_memory now text tags None = mkRun None [] (inl NoSuchTable) /\
  search_memories query None = mkRun None [] (inl NoSuchTable) /\
  delete_memory mem_id None = mkRun None [] (inl NoSuchTable) /\
  wipe_all (Some "y"%string) None = mkRun None [Prompt] (inl NoSuchTable).
Proof.
  assert (Hmain : db_after (main args now stdin db) <> None /\
                  returned (main args now stdin db) <> inl NoSuchTable).
  { unfold main. rewrite init_db_then.
    destruct (Text.truthy (save args)); [apply save_memory_on_table |].
    destruct (Text.truthy (search args)).
    { destruct (search args); [apply search_memories_on_table |].
      cbn; split; discriminate. }
    destruct (Text.truthy_int (delete args)).
    { destruct (delete args); [apply delete_memory_on_table |].
      cbn; split; discriminate. }
    destruct (wipe args); [apply wipe_all_on_table |].
    cbn; split; discriminate. }
  destruct Hmain as [H1 H2]. repeat split; assumption.
Qed.

(** X6: once [delete_memory] has run for an id, no search fetches a row
    with that id, and running it again changes nothing (it prints its
    confirmation all the same). *)
Theorem deleted_memory_is_gone (mem_id : Z) (t : Table) :
  fits_int64 mem_id = true ->
  let db1 := db_after (delete_memory mem_id (Some t)) in
  (forall query row, In row (results query (table_of db1)) -> row_id row <> mem_id) /\
  delete_memory mem_id db1 = mkRun db1 [Deleted mem_id] (inr tt).
Proof.
  intros Hfits. cbv zeta. rewrite delete_memory_run, Hfits. cbn [db_after table_of].
  split.
  - intros query row Hrow. rewrite results_found in Hrow.
    apply in_map_iff in Hrow as [r [<- Hr]]. apply in_found in Hr as [Hr _].
    cbn in Hr. apply filter_In in Hr as [_ Hr].
    apply negb_true_iff, Z.eqb_neq in Hr. exact Hr.
  - rewrite delete_memory_run, Hfits. unfold delete_where_id. cbn [rows seq].
    now rewrite filter_twice.
Qed.

Lemma deleted_memory_is_gone_witness :
  let t := mkTable [mkMemory 1 (Some "bugs") (Some "fix login bug") 100] 1 in
  let db1 := db_after (delete_memory 1 (Some t)) in
  (forall query row, In row (results query (table_of db1)) -> row_id row <> 1) /\
  delete_memory 1 db1 = mkRun db1 [Deleted 1] (inr tt).
Proof.
  apply (deleted_memory_is_gone 1
           (mkTable [mkMemory 1 (Some "bugs") (Some "fix login bug") 100] 1)).
  reflexivity.
Defined.





Lemma filter_one_out (mem_id : Z) (l : list Memory) :
  StronglySorted Z.lt (map id l) -> In mem_id (map id l) ->
  S (List.length (filter (fun m => negb (id m =? mem_id)) l)) = List.length l.
Proof.
  induction l as [|r l IH]; simpl; [tauto |].
  intros Hs Hin. inversion Hs as [|? ? Hl Hr]; subst.
  destruct (Z.eqb_spec (id r) mem_id) as [E | E]; cbn [negb].
  - f_equal. rewrite filter_all; [reflexivity |].
    intros m Hm. apply negb_true_iff, Z.eqb_neq.
    rewrite Forall_forall in Hr. specialize (Hr (id m) (in_map id _ _ Hm)). lia.
  - cbn [List.length]. f_equal. apply IH; [exact Hl |].
    destruct Hin as [Hin | Hin]; [contradiction | exact Hin].
Qed.

(** X11: on a table that satisfies the invariants, deleting an id that is
    present removes one row and one only. *)
Theorem delete_removes_one_row (mem_id : Z) (t : Table) :
  table_inv t ->
  In mem_id (map id (rows t)) ->
  returned (delete_memory mem_id (Some t)) = inr tt /\
  S (List.length (rows_of (db_after (delete_memory mem_id (Some t))))) =
  List.length (rows t).
Proof.
  intros [Hsorted [Hall Hseq]] Hin.
  assert (Hfits : fits_int64 mem_id = true).
  { apply in_map_iff in Hin as [r [<- Hr]].
    rewrite Forall_forall in Hall. destruct (Hall r Hr) as [Hid _].
    unfold fits_int64. apply andb_true_iff.
    split; apply Z.leb_le; unfold MAX_ROWID in *; lia. }
  rewrite delete_memory_run, Hfits. cbn [returned db_after]. split; [reflexivity |].
  unfold rows_of. cbn [table_of delete_where_id rows].
  now apply filter_one_out.
Qed.

Lemma delete_removes_one_row_witness :
  S (List.length (rows_of (db_after (delete_memory 1
       (Some (mkTable [mkMemory 1 (Some "bugs") (Some "fix login bug") 100;
                       mkMemory 2 (Some "general") (Some "hello world") 101] 2)))))) =
  2%nat.
Proof.
  apply (delete_removes_one_row 1
           (mkTable [mkMemory 1 (Some "bugs") (Some "fix login bug") 100;
                     mkMemory 2 (Some "general") (Some "hello world") 101] 2)).
  - split; [| split].
    + cbn. repeat constructor.
    + repeat constructor; cbn; try lia; discriminate.
    + cbn. unfold MAX_ROWID. lia.
  - cbn. now left.
Defined.

(** X12: [--tags] given with a value that is not empty is stored as it
    is; given as the empty string it is replaced by "general", as when it
    is left out. *)
Theorem save_with_tags (c d : ascii) (text tg : string)
    (search_ : option string) (delete_ : option Z) (wipe_ : bool)
    (now : Z) (stdin : option string) (db : Db) :
  let t := table_of db in
  let mem_id := last_rowid t + 1 in
  let stored tags_ :=
    mkRun (Some (mkTable (rows t ++ [mkMemory mem_id (Some tags_)
                                       (Some (String c text)) now]) mem_id))
          [Saved (Some tags_)] (inr tt) in
  last_rowid t < MAX_ROWID ->
  main (mkArgs (Some (String c text)) (Some (String d tg)) search_ delete_ wipe_)
       now stdin db = stored (String d tg) /\
  main (mkArgs (Some (String c text)) (Some ""%string) search_ delete_ wipe_)
       now stdin db = stored "general"%string.
Proof.
  cbv zeta. intros Hroom.
  unfold main. rewrite !init_db_then. cbn [save Text.truthy tags_arg Text.or_else].
  now rewrite !save_memory_run, !(insert_ok _ _ _ _ Hroom).
Qed.

Lemma save_with_tags_witness :
  main (save_tagged "fix login bug" "bugs") 100 None None =
  mkRun (Some (mkTable [mkMemory 1 (Some "bugs"%string) (Some "fix login bug"%string) 100] 1))
        [Saved (Some "bugs"%string)] (inr tt).
Proof.
  destruct (save_with_tags "f" "b" "ix login bug" "ugs" None None false 100 None None)
    as [Hgiven _]; [reflexivity |].
  exact Hgiven.
Defined.

(** X13: [main] loses no row unless its branch is a deletion: when
    [--save] or [--search] is taken, or neither a non-zero [--delete] nor
    [--wipe] is given, the rows after the call are the rows before it,
    followed by at most one new row. *)
Theorem main_keeps_rows (args : Args) (now : Z) (stdin : option string) (db : Db) :
  may_delete args = false ->
  exists added,
    rows_of (db_after (main args now stdin db)) = rows_of db ++ added /\
    (List.length added <= 1)%nat.
Proof.
  unfold may_delete. intros Hsafe. unfold main. rewrite init_db_then.
  fold (rows_of db).
  destruct (Text.truthy (save args)).
  - rewrite save_memory_run. unfold insert.
    destruct (MAX_ROWID <=? last_rowid (table_of db));
      [exists []; cbn; rewrite app_nil_r; split; [reflexivity | lia] |].
    destruct (save args) as [text|];
      [| exists []; cbn; rewrite app_nil_r; split; [reflexivity | lia]].
    eexists [_]. cbn. split; [reflexivity | lia].
  - exists []. rewrite app_nil_r. split; [| cbn; lia].
    destruct (Text.truthy (search args)).
    + destruct (search args); [now rewrite search_memories_db | reflexivity].
    + cbn in Hsafe. apply orb_false_iff in Hsafe as [Hd Hw]. now rewrite Hd, Hw.
Qed.

Lemma main_keeps_rows_witness :
  exists added,
    rows_of (db_after (main (save_args "hello world") 100 None
                         (Some (mkTable [mkMemory 1 (Some "a") (Some "b") 9] 1)))) =
    [mkMemory 1 (Some "a") (Some "b") 9] ++ added /\
    (List.length added <= 1)%nat.
Proof.
  apply (main_keeps_rows (save_args "hello world") 100 None
           (Some (mkTable [mkMemory 1 (Some "a") (Some "b") 9] 1))).
  reflexivity.
Defined.

End Composition.

(* ===================================================================== *)
(** ** Further properties: the queries LIKE accepts *)
(* ===================================================================== *)

Section Queries.
Import Sqlite MemoryHandler Spec.
Local Open Scope list_scope.

Lemma sqlite3Tolower_idem (c : ascii) :
  sqlite3Tolower (sqlite3Tolower c) = sqlite3Tolower c.
Proof. destruct c as [[] [] [] [] [] [] [] []]; reflexivity. Qed.

Lemma sqlite3Tolower_percent (c : ascii) :
  (sqlite3Tolower c =? "%")%char = (c =? "%")%char.
Proof. destruct c as [[] [] [] [] [] [] [] []]; reflexivity. Qed.

Lemma sqlite3Tolower_underscore (c : ascii) :
  (sqlite3Tolower c =? "_")%char = (c =? "_")%char.
Proof. destruct c as [[] [] [] [] [] [] [] []]; reflexivity. Qed.

Lemma patternCompare_fold_pattern (p s : string) :
  patternCompare (fold_case p) s = patternCompare p s.
Proof.
  revert s; induction p as [|c p IH]; intros s; [reflexivity |].
  cbn [fold_case]. destruct (c =? "%")%char eqn:Hc.
  - apply Ascii.eqb_eq in Hc. subst c.
    change (sqlite3Tolower "%") with "%"%char.
    induction s as [|d s IHs];
      rewrite (patternCompare_percent (fold_case p)), (patternCompare_percent p), IH;
      [reflexivity | now rewrite IHs].
  - rewrite !patternCompare_char by (rewrite ?sqlite3Tolower_percent; exact Hc).
    destruct s as [|d s]; [reflexivity |].
    now rewrite sqlite3Tolower_underscore, sqlite3Tolower_idem, IH.
Qed.

Lemma patternCompare_fold_text (p s : string) :
  patternCompare p (fold_case s) = patternCompare p s.
Proof.
  revert s; induction p as [|c p IH]; intros s; [now destruct s |].
  destruct (c =? "%")%char eqn:Hc.
  - apply Ascii.eqb_eq in Hc. subst c.
    induction s as [|d s IHs].
    + reflexivity.
    + cbn [fold_case].
      rewrite (patternCompare_percent p (String d s)),
              (patternCompare_percent p (String _ (fold_case s))), IHs.
      change (String (sqlite3Tolower d) (fold_case s)) with (fold_case (String d s)).
      now rewrite IH.
  - rewrite !patternCompare_char by exact Hc.
    destruct s as [|d s]; [reflexivity |]. cbn [fold_case].
    now rewrite sqlite3Tolower_idem, IH.
Qed.

Lemma pattern_fold_case (query : string) :
  pattern (fold_case query) = fold_case (pattern query).
Proof.
  unfold pattern. cbn [append fold_case]. now rewrite fold_case_app.
Qed.

Lemma utf8_bytes_tolower (c : ascii) :
  utf8_bytes (sqlite3Tolower c) = utf8_bytes c.
Proof. destruct c as [[] [] [] [] [] [] [] []]; reflexivity. Qed.

Lemma utf8_length_fold_case (s : string) :
  utf8_length (fold_case s) = utf8_length s.
Proof.
  induction s as [|c s IH]; [reflexivity |].
  cbn [fold_case utf8_length]. now rewrite utf8_bytes_tolower, IH.
Qed.

Lemma like_query_fold_query (query : string) (r : Memory) :
  like_query (fold_case query) r = like_query query r.
Proof.
  unfold like_query, where_true. rewrite pattern_fold_case, !where_like_same.
  unfold too_complex. rewrite utf8_length_fold_case.
  destruct (_ <? _); [reflexivity |].
  destruct (tags r), (content r); cbn [option_map];
    now rewrite ?patternCompare_fold_pattern.
Qed.

(** X9: a search does not see the case of ASCII letters: a query and
    the same query in lower case fetch the same rows, and a row matches a
    query exactly when the row with its tags and content in lower case
    does. *)
Theorem search_ignores_ascii_case (query : string) (t : Table) :
  results (fold_case query) t = results query t /\
  forall r, like_query query (fold_row r) = like_query query r.
Proof.
  split.
  - rewrite !results_found. unfold found. do 2 f_equal.
    apply filter_ext. intros r. apply like_query_fold_query.
  - intros r. unfold like_query, where_true. rewrite !where_like_same.
    destruct (too_complex (pattern query)); [reflexivity |].
    unfold fold_row. cbn [tags content].
    destruct (tags r), (content r); cbn [option_map];
      now rewrite ?patternCompare_fold_text.
Qed.

Lemma double_percent (s : string) : patternCompare "%%" s = true.
Proof.
  apply percent_iff. exists ""%string, s. split; [reflexivity |].
  apply percent_matches_all.
Qed.

Lemma all_rows_match (query : string) (l : list Memory) :
  too_complex (pattern query) = false ->
  (forall s, patternCompare (pattern query) s = true) ->
  Forall (fun r => content r <> None) l ->
  filter (like_query query) l = l.
Proof.
  intros Hfit Hall Hl. apply filter_all. intros r Hr.
  rewrite Forall_forall in Hl. specialize (Hl r Hr).
  apply like_query_iff. split; [exact Hfit |].
  right. destruct (content r) as [s|]; [| contradiction].
  exists s. now split.
Qed.

(** X10: the empty query.  [search_memories('')] matches every row whose
    tags or content is not NULL, so on a table that satisfies the
    invariants it fetches five rows or, if there are fewer, all of them;
    [--search ''] on the command line, the empty string being falsy, does
    not search at all and prints nothing. *)
Theorem empty_query_matches_all (t : Table) (tags_ : option string)
    (now : Z) (stdin : option string) (db : Db) :
  (forall r, like_query "" r = true <-> tags r <> None \/ content r <> None) /\
  (table_inv t -> List.length (results "" t) = Nat.min 5 (List.length (rows t))) /\
  main (mkArgs None tags_ (Some ""%string) None false) now stdin db =
  mkRun (Some (table_of db)) [] (inr tt).
Proof.
  split; [| split].
  - intros r. rewrite like_query_iff. change (pattern "") with "%%"%string. split.
    + intros [_ [[s [E _]] | [s [E _]]]]; [left | right]; congruence.
    + intros H. split; [reflexivity |]. destruct H as [H | H]; [left | right].
      * destruct (tags r) as [s|]; [| contradiction]. exists s. split; [reflexivity |].
        apply double_percent.
      * destruct (content r) as [s|]; [| contradiction]. exists s. split; [reflexivity |].
        apply double_percent.
  - intros [_ [Hall _]]. rewrite results_found, length_map. unfold found.
    rewrite length_newest_five, all_rows_match; trivial.
    + intros s. apply double_percent.
    + eapply Forall_impl; [| exact Hall]. cbn. tauto.
  - unfold main. now rewrite init_db_then.
Qed.

Lemma empty_query_matches_all_witness :
  List.length (results "" (mkTable [mkMemory 1 (Some "a") (Some "b") 9] 1)) =
  Nat.min 5 1.
Proof.
  destruct (empty_query_matches_all (mkTable [mkMemory 1 (Some "a") (Some "b") 9] 1)
              None 0 None None) as [_ [Hlen _]].
  apply Hlen. split; [| split].
  - cbn. repeat constructor.
  - repeat constructor; cbn; try lia; discriminate.
  - cbn. unfold MAX_ROWID. lia.
Defined.



Lemma sorter_insert_perm (r : Memory) (l : list Memory) :
  Permutation (sorter_insert r l) (r :: l).
Proof.
  induction l as [|x l IH]; cbn [sorter_insert]; [reflexivity |].
  destruct (timestamp x <? timestamp r); [reflexivity |].
  rewrite IH. apply perm_swap.
Qed.

Lemma order_by_perm (l : list Memory) :
  Permutation (order_by_timestamp_desc l) l.
Proof.
  unfold order_by_timestamp_desc.
  assert (H : forall acc, Permutation
                (fold_left (fun a r => sorter_insert r a) l acc) (l ++ acc)).
  { induction l as [|r l IH]; intros acc; cbn [fold_left]; [reflexivity |].
    rewrite IH, sorter_insert_perm. cbn. now rewrite <- Permutation_middle. }
  specialize (H []). now rewrite app_nil_r in H.
Qed.

(** X14: on a table that satisfies the invariants no note is listed
    twice: the rows a search fetches have pairwise distinct ids. *)
Theorem results_have_distinct_ids (query : string) (t : Table) :
  table_inv t -> NoDup (map row_id (results query t)).
Proof.
  intros [Hsorted _]. rewrite results_found, map_map.
  change (fun x => row_id (columns x)) with id.
  unfold found, newest_five.
  set (L := order_by_timestamp_desc _).
  assert (HL : NoDup (map id L)).
  { eapply Permutation_NoDup.
    - apply Permutation_map. symmetry. apply order_by_perm.
    - apply sorted_lt_NoDup, sorted_filter. exact Hsorted. }
  rewrite <- (firstn_skipn 5 L), map_app in HL.
  now apply NoDup_app_remove_r in HL.
Qed.

Lemma results_have_distinct_ids_witness :
  NoDup (map row_id (results "login"
    (mkTable [mkMemory 1 (Some "bugs") (Some "fix login bug") 100;
              mkMemory 2 (Some "web") (Some "login page") 101] 2))).
Proof.
  apply (results_have_distinct_ids "login"
    (mkTable [mkMemory 1 (Some "bugs") (Some "fix login bug") 100;
              mkMemory 2 (Some "web") (Some "login page") 101] 2)).
  split; [| split].
  - cbn. repeat constructor.
  - repeat constructor; cbn; try lia; discriminate.
  - cbn. unfold MAX_ROWID. lia.
Defined.

End Queries.
